(** * camtrack: the motion smoothers and the crop solver of camtrack.cpp

    The development embeds the smoothing classes of [camtrack.cpp]
    ([SmoothMoverLPF], [SmoothMoverBoundedAccel], [SmoothMoverCompose],
    [SmoothMovingRect]), [rectBound] and the tuning and frame loop of
    [main] as Rocq functions, and proves properties of them.

    The arithmetic type of the program is [typedef float prec].  The classes
    are embedded twice, line for line:
    - at top level with [prec] read as the real numbers: every operation is
      exact.  This reading carries the statements that hold whatever the
      rounding: evaluations on inputs where every intermediate value is a
      binary32 number, the assignments made along a path, and order
      relations that rounding to nearest keeps;
    - in module [F32] with [prec] as IEEE 754 binary32, every operation
      rounded, NaN and infinities included.  This reading computes, and
      carries the evaluations in which rounding decides the result.

    Other conventions.
    - The tuning globals ([kLPFSlewRate], [kBoundedMaxSlew],
      [kBoundedMaxSlewAccel]) are mutable in the program (the trackbar
      callbacks write them), so every update takes them as a [Knobs] record.
    - A method that mutates [*this] becomes a function from the old object to
      the new one; a method containing [assert] returns [option], [None]
      standing for the failed assertion.
    - A data member that the constructor leaves uninitialised is an extra
      argument of the constructor: the value the member happens to hold.
    - An [int] is an integer with the wrap-around to 32 bits written out
      where the program multiplies or shifts. *)

From Stdlib Require Import Reals Lra Lia ZArith List SpecFloat.
Import ListNotations.
Local Open Scope R_scope.

(** [typedef float prec;] *)
Abbreviation prec := R (only parsing).

(** The globals of lines 32-34. *)
Record Knobs : Type := mkKnobs {
  kLPFSlewRate : prec;
  kBoundedMaxSlew : prec;
  kBoundedMaxSlewAccel : prec
}.

(** ** The error monad of [assert] *)

Definition bind {A B : Type} (m : option A) (f : A -> option B) : option B :=
  match m with
  | Some a => f a
  | None => None
  end.

Notation "x <- m ;; k" := (bind m (fun x => k))
  (at level 61, m at next level, right associativity).

(** ** [cv::Rect_<T>] *)

Module cv.

Record Rect_ (T : Type) : Type := mkRect {
  x : T;
  y : T;
  width : T;
  height : T
}.

Arguments mkRect {T} _ _ _ _.
Arguments x {T} _.
Arguments y {T} _.
Arguments width {T} _.
Arguments height {T} _.

End cv.

(** ** [SmoothMoverABC]: the read operator and the feed operator *)

Class SmoothMoverABC (M : Type) : Type := {
  (* explicit virtual operator T() const *)
  read : M -> prec;
  (* virtual void operator<<(T target) *)
  feed : Knobs -> M -> prec -> option M
}.

(** ** [SmoothMoverLPF] *)

Module LPF.

Record t : Type := mk { s_ : prec }.

(** [explicit SmoothMoverLPF(T initial) : s_(initial)] *)
Definition ctor (initial : prec) : t := {| s_ := initial |}.

(** [s_ = s_ * (1 - kLPFSlewRate) + target * kLPFSlewRate;] *)
Definition shift (k : Knobs) (m : t) (target : prec) : t :=
    {| s_ := s_ m * (1 - kLPFSlewRate k) + target * kLPFSlewRate k |}.

#[global] Instance mover : SmoothMoverABC t := {
    read m := s_ m;
    feed k m target := Some (shift k m target)
  }.

End LPF.

(** ** [SmoothMoverBoundedAccel] *)

Module BoundedAccel.

Record t : Type := mk { s_ : prec; ds_ : prec }.

(** [explicit SmoothMoverBoundedAccel(T initial) : s_(initial)]: the
    member [ds_] has no initialiser, [indet] is what it holds. *)
Definition ctor (indet : prec) (initial : prec) : t :=
    {| s_ := initial; ds_ := indet |}.

(** [operator<<], lines 97-116. *)
Definition shift (k : Knobs) (m : t) (target : prec) : option t :=
    if Rlt_dec target (s_ m) then
      let ds := ds_ m - kBoundedMaxSlewAccel k in
      let ds := if Rlt_dec ds (- kBoundedMaxSlew k)
                then - kBoundedMaxSlew k else ds in
      let ds := if Rlt_dec (s_ m + ds) target
                then target - s_ m else ds in
      let s := s_ m + ds in
      if Rge_dec s target then Some {| s_ := s; ds_ := ds |} else None
    else if Rgt_dec target (s_ m) then
      let ds := ds_ m + kBoundedMaxSlewAccel k in
      let ds := if Rgt_dec ds (kBoundedMaxSlew k)
                then kBoundedMaxSlew k else ds in
      let ds := if Rgt_dec (s_ m + ds) target
                then s_ m - target else ds in
      let s := s_ m + ds in
      if Rle_dec s target then Some {| s_ := s; ds_ := ds |} else None
    else Some m.

#[global] Instance mover : SmoothMoverABC t := {
    read m := s_ m;
    feed := shift
  }.

End BoundedAccel.

(** ** [SmoothMoverCompose<R, S, T>] *)

Module Compose.

Section Stages.

Context {R S : Type} `{SmoothMoverABC R} `{SmoothMoverABC S}.

Record t : Type := mk { r_ : R; s_ : S }.

(** [explicit SmoothMoverCompose(T initial) : r_(initial), s_(initial)];
    [mkR] and [mkS] are the constructors of the two stages. *)
Definition ctor (mkR : prec -> R) (mkS : prec -> S) (initial : prec) : t :=
      {| r_ := mkR initial; s_ := mkS initial |}.

(** [r_ << target; s_ << static_cast<T>(r_);] *)
Definition shift (k : Knobs) (m : t) (target : prec) : option t :=
      r' <- feed k (r_ m) target ;;
      s' <- feed k (s_ m) (read r') ;;
      Some {| r_ := r'; s_ := s' |}.

#[global] Instance mover : SmoothMoverABC t := {
      read m := read (s_ m);
      feed := shift
    }.

End Stages.

Arguments t R S : clear implicits.

End Compose.

(** ** [int] arithmetic *)

(** The value a 32-bit two's-complement [int] holds after an operation whose
    exact result is [n]. *)
Definition int_wrap (n : Z) : Z := ((n + 2 ^ 31) mod 2 ^ 32 - 2 ^ 31)%Z.

Definition int_mul (a b : Z) : Z := int_wrap (a * b).

Definition int_shl (a n : Z) : Z := int_wrap (Z.shiftl a n).

(** ** [SmoothMovingRect] *)

Module SmoothMovingRect.

(** The centre chains are [SmoothMoverCompose<SmoothMoverBoundedAccel<T>,
    SmoothMoverLPF<T>, T>], the size is a [SmoothMoverLPF<T>]
    (lines 171-175). *)
Definition chain : Type := Compose.t BoundedAccel.t LPF.t.

#[global] Instance chain_mover : SmoothMoverABC chain := Compose.mover.

Record t : Type := mk {
  bounds_ : cv.Rect_ prec;
  aspect_ : prec;
  centerX_ : chain;
  centerY_ : chain;
  size_ : LPF.t
}.

(** The constructor of one centre chain; [indet] is the uninitialised [ds_]
    of its bounded-acceleration stage. *)
Definition chain_ctor (indet : prec) (initial : prec) : chain :=
  Compose.ctor (BoundedAccel.ctor indet) LPF.ctor initial.

(** [SmoothMovingRect(cv::Rect_<Q> bounds, T aspect)] at [Q = int], the
    instance [main] uses; [indetX] and [indetY] are the uninitialised
    velocities of the two centre chains.  The seed size is the [int]
    product [bounds.width * bounds.height] (line 155), converted. *)
Definition ctor (indetX indetY : prec) (bounds : cv.Rect_ Z) (aspect : prec) : t :=
  {| bounds_ := cv.mkRect (IZR (cv.x bounds)) (IZR (cv.y bounds))
                          (IZR (cv.width bounds)) (IZR (cv.height bounds));
     aspect_ := aspect;
     centerX_ := chain_ctor indetX (IZR (cv.x bounds) + IZR (cv.width bounds) / 2);
     centerY_ := chain_ctor indetY (IZR (cv.y bounds) + IZR (cv.height bounds) / 2);
     size_ := LPF.ctor (IZR (int_mul (cv.width bounds) (cv.height bounds))) |}.

(** The locals [x], [y], [width], [height] of [scale] before the four
    corrections (lines 181-186).  [std::sqrt] of a negative number is NaN,
    which the reals do not have: the statements on this reading assume a
    [size * factor] that is not negative, or take the root of a square;
    [F32.SmoothMovingRect.unclamped] has the NaN. *)
Definition unclamped (m : t) (factor verticalPositioning : prec) : cv.Rect_ prec :=
  let size := read (size_ m) * factor in
  let aspect := aspect_ m in
  let height := sqrt (size / aspect) in
  let width := aspect * height in
  let x := read (centerX_ m) - (width / 2) in
  let y := read (centerY_ m) - (height * verticalPositioning) in
  cv.mkRect x y width height.

(** [if (x < 0) { ... }], lines 201-206. *)
Definition clamp_left (aspect : prec) (r : cv.Rect_ prec) : cv.Rect_ prec :=
  if Rlt_dec (cv.x r) 0 then
    let delta := - cv.x r in
    cv.mkRect 0 (cv.y r)
              (cv.width r - 2 * delta) (cv.height r - 2 * delta / aspect)
  else r.

(** [if (y < 0) { ... }], lines 207-212. *)
Definition clamp_top (aspect : prec) (r : cv.Rect_ prec) : cv.Rect_ prec :=
  if Rlt_dec (cv.y r) 0 then
    let delta := - cv.y r in
    cv.mkRect (cv.x r) 0
              (cv.width r - 2 * delta * aspect) (cv.height r - 2 * delta)
  else r.

(** [if (right > bounds_right) { ... }], lines 213-221. *)
Definition clamp_right (bounds : cv.Rect_ prec) (aspect : prec)
    (r : cv.Rect_ prec) : cv.Rect_ prec :=
  let right := cv.x r + cv.width r in
  let bounds_right := cv.x bounds + cv.width bounds in
  if Rgt_dec right bounds_right then
    let delta := right - bounds_right in
    cv.mkRect (cv.x r + delta) (cv.y r + delta / aspect)
              (cv.width r - 2 * delta) (cv.height r - 2 * delta / aspect)
  else r.

(** [if (bottom > bounds_bottom) { ... }], lines 222-230. *)
Definition clamp_bottom (bounds : cv.Rect_ prec) (aspect : prec)
    (r : cv.Rect_ prec) : cv.Rect_ prec :=
  let bottom := cv.y r + cv.height r in
  let bounds_bottom := cv.y bounds + cv.height bounds in
  if Rgt_dec bottom bounds_bottom then
    let delta := bottom - bounds_bottom in
    cv.mkRect (cv.x r + delta * aspect) (cv.y r + delta)
              (cv.width r - 2 * delta * aspect) (cv.height r - 2 * delta)
  else r.

(** [scale<Q>(factor, verticalPositioning)] at [Q = prec], the instance
    behind the crop that [main] transmits. *)
Definition scale (m : t) (factor verticalPositioning : prec) : cv.Rect_ prec :=
  let aspect := aspect_ m in
  clamp_bottom (bounds_ m) aspect
    (clamp_right (bounds_ m) aspect
       (clamp_top aspect
          (clamp_left aspect (unclamped m factor verticalPositioning)))).

(** [operator<<(const cv::Rect_<T>& target)], lines 243-247. *)
Definition shift (k : Knobs) (m : t) (target : cv.Rect_ prec) : option t :=
  cx <- feed k (centerX_ m) (cv.x target + cv.width target / 2) ;;
  cy <- feed k (centerY_ m) (cv.y target + cv.height target / 2) ;;
  sz <- feed k (size_ m) (cv.width target * cv.height target) ;;
  Some {| bounds_ := bounds_ m; aspect_ := aspect_ m;
          centerX_ := cx; centerY_ := cy; size_ := sz |}.

End SmoothMovingRect.

(** ** [rectBound] *)

(** Modelled from the spec: [cv::Rect_<T>::operator|=] belongs to OpenCV and
    is not part of the sources; the spec describes the union as the
    component-wise minimum of left/top and maximum of right/bottom. *)
Definition rect_or (a b : cv.Rect_ Z) : cv.Rect_ Z :=
  let x1 := Z.min (cv.x a) (cv.x b) in
  let y1 := Z.min (cv.y a) (cv.y b) in
  cv.mkRect x1 y1
    (Z.max (cv.x a + cv.width a) (cv.x b + cv.width b) - x1)%Z
    (Z.max (cv.y a + cv.height a) (cv.y b + cv.height b) - y1)%Z.

(** [rectBound] at [T = int] (the detector's [cv::Rect]); the loop
    [for (i = 1; i < rects.size(); i++) rv |= rects[i];] is a left fold
    from [rects[0]], the [assert] is the [None]. *)
Definition rectBound (rects : list (cv.Rect_ Z)) : option (cv.Rect_ Z) :=
  match rects with
  | [] => None
  | r0 :: rest => Some (fold_left rect_or rest r0)
  end.

(** ** Auxiliary notions used by the statements *)

(** [n] successive updates with one fixed target. *)
Fixpoint feed_n {M : Type} `{SmoothMoverABC M}
    (k : Knobs) (n : nat) (m : M) (target : prec) : option M :=
  match n with
  | O => Some m
  | S n' => m' <- feed k m target ;; feed_n k n' m' target
  end.

(** The centre point of a rectangle. *)
Definition centerX (r : cv.Rect_ prec) : prec := cv.x r + cv.width r / 2.
Definition centerY (r : cv.Rect_ prec) : prec := cv.y r + cv.height r / 2.

(** [inner] lies within [outer]. *)
Definition inside (outer inner : cv.Rect_ prec) : Prop :=
  cv.x outer <= cv.x inner /\
  cv.y outer <= cv.y inner /\
  cv.x inner + cv.width inner <= cv.x outer + cv.width outer /\
  cv.y inner + cv.height inner <= cv.y outer + cv.height outer.


(** The same two notions for the integer rectangles of [rectBound]. *)
Definition insideZ (outer inner : cv.Rect_ Z) : Prop :=
  (cv.x outer <= cv.x inner /\
   cv.y outer <= cv.y inner /\
   cv.x inner + cv.width inner <= cv.x outer + cv.width outer /\
   cv.y inner + cv.height inner <= cv.y outer + cv.height outer)%Z.



(** ** The constants and the tuning of [main] *)

(** Lines 27-28. *)
Definition kOutWidth : Z := 640.
Definition kOutHeight : Z := 480.

(** [exp10] of [math.h]: ten to the power [x]. *)
Definition exp10 (x : R) : R := Rpower 10 x.

(** The five tuning globals of lines 32-36: the three the smoothers read,
    and the two [main] hands to [scale]. *)
Record Globals : Type := mkGlobals {
  knobs : Knobs;
  kZoom : prec;
  kEyes : prec
}.

Definition set_kLPFSlewRate (v : prec) (g : Globals) : Globals :=
  {| knobs := {| kLPFSlewRate := v;
                 kBoundedMaxSlew := kBoundedMaxSlew (knobs g);
                 kBoundedMaxSlewAccel := kBoundedMaxSlewAccel (knobs g) |};
     kZoom := kZoom g; kEyes := kEyes g |}.

Definition set_kBoundedMaxSlew (v : prec) (g : Globals) : Globals :=
  {| knobs := {| kLPFSlewRate := kLPFSlewRate (knobs g);
                 kBoundedMaxSlew := v;
                 kBoundedMaxSlewAccel := kBoundedMaxSlewAccel (knobs g) |};
     kZoom := kZoom g; kEyes := kEyes g |}.

Definition set_kBoundedMaxSlewAccel (v : prec) (g : Globals) : Globals :=
  {| knobs := {| kLPFSlewRate := kLPFSlewRate (knobs g);
                 kBoundedMaxSlew := kBoundedMaxSlew (knobs g);
                 kBoundedMaxSlewAccel := v |};
     kZoom := kZoom g; kEyes := kEyes g |}.

Definition set_kZoom (v : prec) (g : Globals) : Globals :=
  {| knobs := knobs g; kZoom := v; kEyes := kEyes g |}.

Definition set_kEyes (v : prec) (g : Globals) : Globals :=
  {| knobs := knobs g; kZoom := kZoom g; kEyes := v |}.

(** The trackbar callbacks of lines 367-394; [pos] is the slider position. *)
Definition onSlewLPF (pos : Z) : Globals -> Globals :=
  set_kLPFSlewRate (exp10 (IZR pos / - 10)).

Definition onSlewVel (pos : Z) : Globals -> Globals :=
  set_kBoundedMaxSlew (IZR pos / 10).

Definition onSlewAccel (pos : Z) : Globals -> Globals :=
  set_kBoundedMaxSlewAccel (IZR pos / 1000).

Definition onZoom (pos : Z) : Globals -> Globals :=
  set_kZoom (IZR (pos + 1) / 10).

Definition onEyes (pos : Z) : Globals -> Globals :=
  set_kEyes (IZR pos / 120).

(** Globals have static storage: they start at zero. *)
Definition zero_globals : Globals :=
  {| knobs := {| kLPFSlewRate := 0; kBoundedMaxSlew := 0; kBoundedMaxSlewAccel := 0 |};
     kZoom := 0; kEyes := 0 |}.

(** The assignments [main] makes beside creating the trackbars, in order
    (lines 371, 377, 383, 389, 395); the third one writes [kBoundedMaxSlew]
    again. *)
Definition startup_globals : Globals :=
  set_kEyes (IZR 40 / 120)
    (set_kZoom (IZR 60 / 10)
       (set_kBoundedMaxSlew (IZR 75 / 1000)
          (set_kBoundedMaxSlew (IZR 10 / 10)
             (set_kLPFSlewRate (exp10 (IZR 20 / - 10)) zero_globals)))).

(** [adjustCascadeSizes], lines 347-354: the minimum and the maximum object
    size handed to the classifier; the integer division has no result for a
    zero divisor. *)
Definition adjustCascadeSizes (camWidth classifierPyrCount minimumSizeDivisor : Z)
    : option (Z * Z) :=
  if Z.eqb minimumSizeDivisor 0 then None
  else
    let minSize := Z.quot (Z.shiftr camWidth classifierPyrCount) minimumSizeDivisor in
    Some (minSize, (minSize * 10)%Z).

(** The four characters printed for the capture format, lines 332-335. *)
Definition fourcc_chars (fourcc : Z) : list Z :=
  [Z.land (Z.shiftr fourcc 0) 127; Z.land (Z.shiftr fourcc 8) 127;
   Z.land (Z.shiftr fourcc 16) 127; Z.land (Z.shiftr fourcc 24) 127].

(** Lines 436-439: the union of the detections, brought back to camera
    resolution by shifting every field left by the prescale count. *)
Definition unscale (classifierPyrCount : Z) (r : cv.Rect_ Z) : cv.Rect_ Z :=
  cv.mkRect (int_shl (cv.x r) classifierPyrCount)
            (int_shl (cv.y r) classifierPyrCount)
            (int_shl (cv.width r) classifierPyrCount)
            (int_shl (cv.height r) classifierPyrCount).

(** Successive updates with a target of its own each. *)
Fixpoint feed_list {M : Type} `{SmoothMoverABC M}
    (k : Knobs) (m : M) (targets : list prec) : option M :=
  match targets with
  | [] => Some m
  | target :: rest => m' <- feed k m target ;; feed_list k m' rest
  end.

(** ** The same classes in the program's own arithmetic: IEEE 754 binary32

    [prec] is [float].  Module [F32] repeats the classes with every
    operation rounded to binary32 (24 significant bits, round to nearest
    even), with NaN, infinities and signed zeros, as [SpecFloat] defines
    them; a comparison with NaN is false.  These definitions compute. *)

Module F32.

Definition float : Type := spec_float.

Definition add : float -> float -> float := SFadd 24 128.
Definition sub : float -> float -> float := SFsub 24 128.
Definition mul : float -> float -> float := SFmul 24 128.
Definition div : float -> float -> float := SFdiv 24 128.
Definition sqrt : float -> float := SFsqrt 24 128.
Definition opp : float -> float := SFopp.
Definition ltb : float -> float -> bool := SFltb.
Definition leb : float -> float -> bool := SFleb.

(** The conversion of an [int] to [float]. *)
Definition of_int (n : Z) : float := binary_normalize 24 128 n 0 false.

(** The [float] nearest to [num / den], for integers below 2^24: the value
    of a literal such as [0.1f] ([ratio 1 10]) or [8.4f] ([ratio 84 10]). *)
Definition ratio (num den : Z) : float := div (of_int num) (of_int den).

Record Knobs : Type := mkKnobs {
  kLPFSlewRate : float;
  kBoundedMaxSlew : float;
  kBoundedMaxSlewAccel : float
}.

Module LPF.

Record t : Type := mk { s_ : float }.

Definition ctor (initial : float) : t := {| s_ := initial |}.

(** [s_ = s_ * (1 - kLPFSlewRate) + target * kLPFSlewRate;] *)
Definition shift (k : Knobs) (m : t) (target : float) : t :=
  {| s_ := add (mul (s_ m) (sub (of_int 1) (kLPFSlewRate k)))
               (mul target (kLPFSlewRate k)) |}.

End LPF.

Module BoundedAccel.

Record t : Type := mk { s_ : float; ds_ : float }.

(** [indet] is what the uninitialised [ds_] holds: any bit pattern, NaN
    included. *)
Definition ctor (indet : float) (initial : float) : t :=
  {| s_ := initial; ds_ := indet |}.

(** [operator<<], lines 97-116; [None] is the failed [assert]. *)
Definition shift (k : Knobs) (m : t) (target : float) : option t :=
  if ltb target (s_ m) then
    let ds := sub (ds_ m) (kBoundedMaxSlewAccel k) in
    let ds := if ltb ds (opp (kBoundedMaxSlew k))
              then opp (kBoundedMaxSlew k) else ds in
    let ds := if ltb (add (s_ m) ds) target
              then sub target (s_ m) else ds in
    let s := add (s_ m) ds in
    if leb target s then Some {| s_ := s; ds_ := ds |} else None
  else if ltb (s_ m) target then
    let ds := add (ds_ m) (kBoundedMaxSlewAccel k) in
    let ds := if ltb (kBoundedMaxSlew k) ds
              then kBoundedMaxSlew k else ds in
    let ds := if ltb target (add (s_ m) ds)
              then sub (s_ m) target else ds in
    let s := add (s_ m) ds in
    if leb s target then Some {| s_ := s; ds_ := ds |} else None
  else Some m.

End BoundedAccel.

(** [SmoothMoverCompose] at its one instance, [R = SmoothMoverBoundedAccel]
    and [S = SmoothMoverLPF]. *)
Module Compose.

Record t : Type := mk { r_ : BoundedAccel.t; s_ : LPF.t }.

Definition ctor (indet : float) (initial : float) : t :=
  {| r_ := BoundedAccel.ctor indet initial; s_ := LPF.ctor initial |}.

(** [r_ << target; s_ << static_cast<T>(r_);] *)
Definition shift (k : Knobs) (m : t) (target : float) : option t :=
  r' <- BoundedAccel.shift k (r_ m) target ;;
  Some {| r_ := r'; s_ := LPF.shift k (s_ m) (BoundedAccel.s_ r') |}.

End Compose.

Module SmoothMovingRect.

Record t : Type := mk {
  bounds_ : cv.Rect_ float;
  aspect_ : float;
  centerX_ : Compose.t;
  centerY_ : Compose.t;
  size_ : LPF.t
}.

(** The constructor at [Q = int]: the seed size is the [int] product,
    converted. *)
Definition ctor (indetX indetY : float) (bounds : cv.Rect_ Z) (aspect : float) : t :=
  {| bounds_ := cv.mkRect (of_int (cv.x bounds)) (of_int (cv.y bounds))
                          (of_int (cv.width bounds)) (of_int (cv.height bounds));
     aspect_ := aspect;
     centerX_ := Compose.ctor indetX
                   (add (of_int (cv.x bounds)) (div (of_int (cv.width bounds)) (of_int 2)));
     centerY_ := Compose.ctor indetY
                   (add (of_int (cv.y bounds)) (div (of_int (cv.height bounds)) (of_int 2)));
     size_ := LPF.ctor (of_int (int_mul (cv.width bounds) (cv.height bounds))) |}.

(** Lines 181-186. *)
Definition unclamped (m : t) (factor verticalPositioning : float) : cv.Rect_ float :=
  let size := mul (LPF.s_ (size_ m)) factor in
  let aspect := aspect_ m in
  let height := sqrt (div size aspect) in
  let width := mul aspect height in
  let x := sub (LPF.s_ (Compose.s_ (centerX_ m))) (div width (of_int 2)) in
  let y := sub (LPF.s_ (Compose.s_ (centerY_ m))) (mul height verticalPositioning) in
  cv.mkRect x y width height.

(** Lines 201-206. *)
Definition clamp_left (aspect : float) (r : cv.Rect_ float) : cv.Rect_ float :=
  if ltb (cv.x r) (of_int 0) then
    let delta := opp (cv.x r) in
    cv.mkRect (of_int 0) (cv.y r)
              (sub (cv.width r) (mul (of_int 2) delta))
              (sub (cv.height r) (div (mul (of_int 2) delta) aspect))
  else r.

(** Lines 207-212. *)
Definition clamp_top (aspect : float) (r : cv.Rect_ float) : cv.Rect_ float :=
  if ltb (cv.y r) (of_int 0) then
    let delta := opp (cv.y r) in
    cv.mkRect (cv.x r) (of_int 0)
              (sub (cv.width r) (mul (mul (of_int 2) delta) aspect))
              (sub (cv.height r) (mul (of_int 2) delta))
  else r.

(** Lines 213-221. *)
Definition clamp_right (bounds : cv.Rect_ float) (aspect : float)
    (r : cv.Rect_ float) : cv.Rect_ float :=
  let right := add (cv.x r) (cv.width r) in
  let bounds_right := add (cv.x bounds) (cv.width bounds) in
  if ltb bounds_right right then
    let delta := sub right bounds_right in
    cv.mkRect (add (cv.x r) delta) (add (cv.y r) (div delta aspect))
              (sub (cv.width r) (mul (of_int 2) delta))
              (sub (cv.height r) (div (mul (of_int 2) delta) aspect))
  else r.

(** Lines 222-230. *)
Definition clamp_bottom (bounds : cv.Rect_ float) (aspect : float)
    (r : cv.Rect_ float) : cv.Rect_ float :=
  let bottom := add (cv.y r) (cv.height r) in
  let bounds_bottom := add (cv.y bounds) (cv.height bounds) in
  if ltb bounds_bottom bottom then
    let delta := sub bottom bounds_bottom in
    cv.mkRect (add (cv.x r) (mul delta aspect)) (add (cv.y r) delta)
              (sub (cv.width r) (mul (mul (of_int 2) delta) aspect))
              (sub (cv.height r) (mul (of_int 2) delta))
  else r.

(** [scale<prec>(factor, verticalPositioning)]. *)
Definition scale (m : t) (factor verticalPositioning : float) : cv.Rect_ float :=
  let aspect := aspect_ m in
  clamp_bottom (bounds_ m) aspect
    (clamp_right (bounds_ m) aspect
       (clamp_top aspect
          (clamp_left aspect (unclamped m factor verticalPositioning)))).

(** [operator<<(const cv::Rect_<T>& target)], lines 243-247. *)
Definition shift (k : Knobs) (m : t) (target : cv.Rect_ float) : option t :=
  cx <- Compose.shift k (centerX_ m)
          (add (cv.x target) (div (cv.width target) (of_int 2))) ;;
  cy <- Compose.shift k (centerY_ m)
          (add (cv.y target) (div (cv.height target) (of_int 2))) ;;
  Some {| bounds_ := bounds_ m; aspect_ := aspect_ m;
          centerX_ := cx; centerY_ := cy;
          size_ := LPF.shift k (size_ m) (mul (cv.width target) (cv.height target)) |}.

End SmoothMovingRect.

(** The conversion of a [cv::Rect] to the [cv::Rect_<prec>] that
    [operator<<] takes. *)
Definition Rect_to_float (r : cv.Rect_ Z) : cv.Rect_ float :=
  cv.mkRect (of_int (cv.x r)) (of_int (cv.y r))
            (of_int (cv.width r)) (of_int (cv.height r)).

(** What one pass of the loop reads: the tuning globals as the trackbars
    left them, the prescale count, and the detections of the frame. *)
Record FrameInput : Type := mkFrameInput {
  knobs : Knobs;
  kZoom : float;
  kEyes : float;
  classifierPyrCount : Z;
  faces_cpu : list (cv.Rect_ Z)
}.

(** Lines 433-442 of the loop body: observe the union of the detections, if
    there are any, then compute the crop to transmit. *)
Definition frame (roi : SmoothMovingRect.t) (i : FrameInput)
    : option (SmoothMovingRect.t * cv.Rect_ float) :=
  roi' <- (if Nat.ltb 0 (length (faces_cpu i)) then
             faceBoundsUnscaled <- rectBound (faces_cpu i) ;;
             SmoothMovingRect.shift (knobs i) roi
               (Rect_to_float (unscale (classifierPyrCount i) faceBoundsUnscaled))
           else Some roi) ;;
  Some (roi', SmoothMovingRect.scale roi' (kZoom i) (kEyes i)).

End F32.

(** ** Proof tools *)

(** Split on every comparison of the goal, closing the impossible cases. *)
Ltac rcases :=
  repeat match goal with
         | |- context [Rlt_dec ?a ?b] => destruct (Rlt_dec a b); try lra
         | |- context [Rgt_dec ?a ?b] => destruct (Rgt_dec a b); try lra
         | |- context [Rle_dec ?a ?b] => destruct (Rle_dec a b); try lra
         | |- context [Rge_dec ?a ?b] => destruct (Rge_dec a b); try lra
         | _ : context [Rlt_dec ?a ?b] |- _ => destruct (Rlt_dec a b); try lra
         | _ : context [Rgt_dec ?a ?b] |- _ => destruct (Rgt_dec a b); try lra
         | _ : context [Rle_dec ?a ?b] |- _ => destruct (Rle_dec a b); try lra
         | _ : context [Rge_dec ?a ?b] |- _ => destruct (Rge_dec a b); try lra
         end.

Ltac unfold_movers :=
  repeat progress
    (unfold feed, read, SmoothMovingRect.chain_mover, Compose.mover,
       Compose.shift, BoundedAccel.mover, LPF.mover, BoundedAccel.shift,
       LPF.shift, bind in *;
     cbn [BoundedAccel.s_ BoundedAccel.ds_ LPF.s_ Compose.r_ Compose.s_
          kLPFSlewRate kBoundedMaxSlew kBoundedMaxSlewAccel] in *).

Lemma Rabs_le_bounds (a b : R) : Rabs a <= b -> - b <= a <= b.
Proof.
  unfold Rabs. destruct (Rcase_abs a); lra.
Qed.

(** ** The bounded-acceleration stage *)




(** C3 (evaluation at the failing input): with [kBoundedMaxSlew = 1] and
    [kBoundedMaxSlewAccel = 1/2], the state [s_ = 0, ds_ = 0] fed the target
    [1/4] would step to [1/2], past the target; the update leaves it at
    [s_ = -1/4], not on the target [1/4]. *)
Theorem BoundedAccel_misses_target_from_below :
  BoundedAccel.shift (mkKnobs (1 / 10) 1 (1 / 2)) (BoundedAccel.mk 0 0) (1 / 4)
  = Some (BoundedAccel.mk (- (1 / 4)) (- (1 / 4))).
Proof.
  unfold_movers. rcases. do 2 f_equal; lra.
Qed.

(** C10: the constructor fixes [s_] only.  For a positive speed cap and a
    first target different from the initial value, two objects built from
    the same initial value (differing only in what [ds_] happens to hold)
    answer the same first target with different values. *)
Theorem BoundedAccel_first_update_undetermined (k : Knobs) (initial target : prec) :
  0 < kBoundedMaxSlew k ->
  target <> initial ->
  exists d1 d2 m1 m2,
    BoundedAccel.s_ (BoundedAccel.ctor d1 initial)
      = BoundedAccel.s_ (BoundedAccel.ctor d2 initial) /\
    feed k (BoundedAccel.ctor d1 initial) target = Some m1 /\
    feed k (BoundedAccel.ctor d2 initial) target = Some m2 /\
    read m1 <> read m2.
Proof.
  intros Hv Hne.
  destruct (Rlt_dec target initial) as [Hlt | Hnlt].
  - exists (kBoundedMaxSlewAccel k), (kBoundedMaxSlewAccel k - kBoundedMaxSlew k - 1).
    unfold BoundedAccel.ctor. unfold_movers.
    rcases; do 2 eexists; (split; [reflexivity |]);
      (split; [reflexivity |]); (split; [reflexivity |]); cbn; lra.
  - exists (- kBoundedMaxSlewAccel k), (kBoundedMaxSlew k + 1 - kBoundedMaxSlewAccel k).
    unfold BoundedAccel.ctor. unfold_movers.
    rcases; do 2 eexists; (split; [reflexivity |]);
      (split; [reflexivity |]); (split; [reflexivity |]); cbn; lra.
Qed.

Lemma BoundedAccel_first_update_undetermined_witness :
  exists d1 d2 m1 m2,
    BoundedAccel.s_ (BoundedAccel.ctor d1 0)
      = BoundedAccel.s_ (BoundedAccel.ctor d2 0) /\
    feed (mkKnobs (1 / 10) 1 (1 / 2)) (BoundedAccel.ctor d1 0) 5 = Some m1 /\
    feed (mkKnobs (1 / 10) 1 (1 / 2)) (BoundedAccel.ctor d2 0) 5 = Some m2 /\
    read m1 <> read m2.
Proof.
  apply (BoundedAccel_first_update_undetermined (mkKnobs (1 / 10) 1 (1 / 2)) 0 5);
    cbn; lra.
Defined.

(** ** The low-pass stage *)

(** One update scales the signed distance to the target by
    [1 - kLPFSlewRate]. *)
Lemma LPF_shift_distance (k : Knobs) (m : LPF.t) (target : prec) :
  LPF.s_ (LPF.shift k m target) - target
  = (1 - kLPFSlewRate k) * (LPF.s_ m - target).
Proof.
  unfold LPF.shift. cbn. ring.
Qed.

(** [S n] updates are [n] updates followed by one more. *)
Lemma LPF_feed_n_last (k : Knobs) (n : nat) (m : LPF.t) (target : prec) :
  feed_n k (S n) m target
  = (m' <- feed_n k n m target ;; feed k m' target).
Proof.
  revert m. induction n as [| n IH]; intros m.
  - reflexivity.
  - change (feed_n k (S (S n)) m target)
      with (feed_n k (S n) (LPF.shift k m target) target).
    rewrite IH. reflexivity.
Qed.

(** [n] updates never fail and scale the signed distance by
    [(1 - kLPFSlewRate) ^ n]. *)
Lemma LPF_feed_n_distance (k : Knobs) (n : nat) (m : LPF.t) (target : prec) :
  exists m', feed_n k n m target = Some m' /\
             LPF.s_ m' - target = (1 - kLPFSlewRate k) ^ n * (LPF.s_ m - target).
Proof.
  revert m. induction n as [| n IH]; intros m.
  - exists m. split; [reflexivity | cbn; ring].
  - destruct (IH (LPF.shift k m target)) as [m' [Hrun Hdist]].
    exists m'. split; [exact Hrun |].
    rewrite Hdist, LPF_shift_distance. cbn. ring.
Qed.

(** C8 (amended): in exact arithmetic, for a coefficient in (0,1], the
    update sets [s_] to [s_ * (1 - a) + target * a]; under repeated updates
    with one target the distance to the target is multiplied by [1 - a] at
    every step (so after [n] steps by [(1 - a) ^ n]), strictly decreases
    while the value is off the target, and the value stays on its side of
    the target.  An evaluation in binary32 further down shows what rounding
    does to this. *)
Theorem LPF_approaches_target (k : Knobs) (m : LPF.t) (target : prec) (n : nat) :
  0 < kLPFSlewRate k <= 1 ->
  feed k m target
    = Some (LPF.mk (LPF.s_ m * (1 - kLPFSlewRate k) + target * kLPFSlewRate k)) /\
  exists mn mn',
    feed_n k n m target = Some mn /\
    feed_n k (S n) m target = Some mn' /\
    read mn - target = (1 - kLPFSlewRate k) ^ n * (read m - target) /\
    Rabs (read mn' - target) = (1 - kLPFSlewRate k) * Rabs (read mn - target) /\
    (read mn <> target -> Rabs (read mn' - target) < Rabs (read mn - target)) /\
    (read mn <= target -> read mn <= read mn' <= target) /\
    (target <= read mn -> target <= read mn' <= read mn).
Proof.
  intros [Hpos Hle1]. split; [reflexivity |].
  destruct (LPF_feed_n_distance k n m target) as [mn [Hrun Hdist]].
  exists mn, (LPF.shift k mn target).
  split; [exact Hrun |].
  split; [rewrite LPF_feed_n_last, Hrun; reflexivity |].
  split; [exact Hdist |].
  pose proof (LPF_shift_distance k mn target) as Hstep.
  cbn [read LPF.mover] in *.
  split; [| split; [| split]].
  - rewrite Hstep, Rabs_mult, (Rabs_pos_eq (1 - kLPFSlewRate k)) by lra.
    reflexivity.
  - intros Hoff. rewrite Hstep, Rabs_mult, (Rabs_pos_eq (1 - kLPFSlewRate k)) by lra.
    assert (0 < Rabs (LPF.s_ mn - target)) by (apply Rabs_pos_lt; lra).
    nra.
  - intros Hbelow. nra.
  - intros Habove. nra.
Qed.

Lemma LPF_approaches_target_witness :
  feed (mkKnobs (1 / 10) 1 (1 / 2)) (LPF.mk 0) 10
    = Some (LPF.mk (0 * (1 - 1 / 10) + 10 * (1 / 10))) /\
  exists mn mn',
    feed_n (mkKnobs (1 / 10) 1 (1 / 2)) 2 (LPF.mk 0) 10 = Some mn /\
    feed_n (mkKnobs (1 / 10) 1 (1 / 2)) 3 (LPF.mk 0) 10 = Some mn' /\
    read mn - 10 = (1 - 1 / 10) ^ 2 * (0 - 10) /\
    Rabs (read mn' - 10) = (1 - 1 / 10) * Rabs (read mn - 10) /\
    (read mn <> 10 -> Rabs (read mn' - 10) < Rabs (read mn - 10)) /\
    (read mn <= 10 -> read mn <= read mn' <= 10) /\
    (10 <= read mn -> 10 <= read mn' <= read mn).
Proof.
  apply (LPF_approaches_target (mkKnobs (1 / 10) 1 (1 / 2)) (LPF.mk 0) 10 2).
  cbn. lra.
Defined.

(** ** The crop solver *)

Ltac unfold_clamps :=
  unfold SmoothMovingRect.clamp_left, SmoothMovingRect.clamp_top,
    SmoothMovingRect.clamp_right, SmoothMovingRect.clamp_bottom;
  cbn [cv.x cv.y cv.width cv.height].

(** Run the four corrections on a concrete rectangle, innermost first. *)
Ltac run_clamp f :=
  unfold f; cbv zeta; cbn [cv.x cv.y cv.width cv.height]; rcases.

Ltac run_clamps :=
  run_clamp SmoothMovingRect.clamp_left;
  run_clamp SmoothMovingRect.clamp_top;
  run_clamp SmoothMovingRect.clamp_right;
  run_clamp SmoothMovingRect.clamp_bottom.

(** The seed state of a 2 x 2 scene at the origin with aspect 1, as [scale]
    sees it with factor 4 and vertical positioning 1/2. *)
Lemma unclamped_seed_2x2 :
  SmoothMovingRect.unclamped
    (SmoothMovingRect.ctor 0 0 (cv.mkRect 0 0 2 2)%Z 1) 4 (1 / 2)
  = cv.mkRect (- 1) (- 1) 4 4.
Proof.
  unfold SmoothMovingRect.unclamped, SmoothMovingRect.ctor,
    SmoothMovingRect.chain_ctor, Compose.ctor, LPF.ctor.
  cbn [SmoothMovingRect.size_ SmoothMovingRect.aspect_ SmoothMovingRect.centerX_
       SmoothMovingRect.centerY_ cv.x cv.y cv.width cv.height].
  unfold_movers.
  change (int_mul 2 2) with 4%Z.
  replace (4 * 4 / 1) with (4 * 4) by lra.
  rewrite sqrt_square by lra.
  f_equal; lra.
Qed.

(** C6 (evaluation at the failing input): on the seed state of a 2 x 2
    scene with aspect 1, factor 4 and vertical positioning 1/2, the
    rectangle before the corrections is (-1, -1, 4, 4) with centre (1, 1);
    the left correction turns it into (0, -1, 2, 2), whose centre is
    (1, 0): the centre ordinate has moved. *)
Theorem clamp_left_moves_center :
  SmoothMovingRect.clamp_left 1
    (SmoothMovingRect.unclamped
       (SmoothMovingRect.ctor 0 0 (cv.mkRect 0 0 2 2)%Z 1) 4 (1 / 2))
  = cv.mkRect 0 (- 1) 2 2 /\
  centerY (SmoothMovingRect.unclamped
             (SmoothMovingRect.ctor 0 0 (cv.mkRect 0 0 2 2)%Z 1) 4 (1 / 2)) = 1 /\
  centerY (SmoothMovingRect.clamp_left 1
             (SmoothMovingRect.unclamped
                (SmoothMovingRect.ctor 0 0 (cv.mkRect 0 0 2 2)%Z 1) 4 (1 / 2))) = 0.
Proof.
  rewrite unclamped_seed_2x2. unfold centerY. unfold_clamps.
  rcases. cbn. repeat split; try f_equal; lra.
Qed.

(** C1 (evaluation at the failing input): a 2 x 2 scene whose corner is
    (1, 0), aspect 1, seed state, factor 9/4 and vertical positioning 1/2.
    [scale] returns (1/2, 0, 2, 2): a rectangle of positive width and
    height whose left edge 1/2 is left of the scene's left edge 1. *)
Theorem scale_leaves_shifted_scene :
  SmoothMovingRect.scale
    (SmoothMovingRect.ctor 0 0 (cv.mkRect 1 0 2 2)%Z 1) (9 / 4) (1 / 2)
  = cv.mkRect (1 / 2) 0 2 2 /\
  cv.x (cv.mkRect (1 / 2) 0 2 2)
  < cv.x (SmoothMovingRect.bounds_ (SmoothMovingRect.ctor 0 0 (cv.mkRect 1 0 2 2)%Z 1)) /\
  0 < cv.width (cv.mkRect (1 / 2) 0 2 2) /\
  0 < cv.height (cv.mkRect (1 / 2) 0 2 2).
Proof.
  split; [| cbn; lra].
  assert (Hstart : SmoothMovingRect.unclamped
                     (SmoothMovingRect.ctor 0 0 (cv.mkRect 1 0 2 2)%Z 1) (9 / 4) (1 / 2)
                   = cv.mkRect (1 / 2) (- (1 / 2)) 3 3).
  { unfold SmoothMovingRect.unclamped, SmoothMovingRect.ctor,
      SmoothMovingRect.chain_ctor, Compose.ctor, LPF.ctor.
    cbn [SmoothMovingRect.size_ SmoothMovingRect.aspect_ SmoothMovingRect.centerX_
         SmoothMovingRect.centerY_ cv.x cv.y cv.width cv.height].
    unfold_movers.
    change (int_mul 2 2) with 4%Z.
    replace (4 * (9 / 4) / 1) with (3 * 3) by lra.
    rewrite sqrt_square by lra.
    f_equal; lra. }
  unfold SmoothMovingRect.scale. cbv zeta. rewrite Hstart.
  unfold SmoothMovingRect.ctor.
  cbn [SmoothMovingRect.bounds_ SmoothMovingRect.aspect_].
  run_clamps. f_equal; lra.
Qed.


(** ** The three pipelines of [SmoothMovingRect] *)





(** ** [rectBound] *)

Local Open Scope Z_scope.

(** The union of two rectangles has the smaller left and top edge and the
    larger right and bottom edge. *)
Lemma rect_or_edges (a b : cv.Rect_ Z) :
  cv.x (rect_or a b) = Z.min (cv.x a) (cv.x b) /\
  cv.y (rect_or a b) = Z.min (cv.y a) (cv.y b) /\
  cv.x (rect_or a b) + cv.width (rect_or a b)
  = Z.max (cv.x a + cv.width a) (cv.x b + cv.width b) /\
  cv.y (rect_or a b) + cv.height (rect_or a b)
  = Z.max (cv.y a + cv.height a) (cv.y b + cv.height b).
Proof.
  unfold rect_or. cbn. repeat split; lia.
Qed.

(** The loop of [rectBound]: the result contains the start value and every
    rectangle folded in, and each of its four edges is the edge of one of
    them. *)
Lemma fold_rect_or_edges (rest : list (cv.Rect_ Z)) :
  forall acc : cv.Rect_ Z,
    (forall r, r = acc \/ In r rest -> insideZ (fold_left rect_or rest acc) r) /\
    (exists r, (r = acc \/ In r rest) /\
               cv.x (fold_left rect_or rest acc) = cv.x r) /\
    (exists r, (r = acc \/ In r rest) /\
               cv.y (fold_left rect_or rest acc) = cv.y r) /\
    (exists r, (r = acc \/ In r rest) /\
               cv.x (fold_left rect_or rest acc) + cv.width (fold_left rect_or rest acc)
               = cv.x r + cv.width r) /\
    (exists r, (r = acc \/ In r rest) /\
               cv.y (fold_left rect_or rest acc) + cv.height (fold_left rect_or rest acc)
               = cv.y r + cv.height r).
Proof.
  induction rest as [| b rest IH]; intros acc.
  - cbn. split; [intros r [-> | []]; unfold insideZ; lia |].
    repeat split; exists acc; (split; [left; reflexivity | reflexivity]).
  - cbn [fold_left].
    destruct (IH (rect_or acc b)) as [Hin [[rl [Hl El]] [[rt [Ht Et]] [[rr [Hr Er]] [rb [Hb Eb]]]]]].
    destruct (rect_or_edges acc b) as [Ex [Ey [Ew Eh]]].
    pose proof (Hin (rect_or acc b) (or_introl eq_refl)) as Hacc.
    unfold insideZ in Hacc.
    split; [| split; [| split; [| split]]].
    + intros r [-> | [-> | Hrest]];
        [| | exact (Hin r (or_intror Hrest))]; unfold insideZ; lia.
    + destruct Hl as [-> | Hl]; [| exists rl; cbn; tauto].
      rewrite El, Ex.
      destruct (Z.min_spec (cv.x acc) (cv.x b)) as [[_ ->] | [_ ->]];
        [exists acc | exists b]; cbn; tauto.
    + destruct Ht as [-> | Ht]; [| exists rt; cbn; tauto].
      rewrite Et, Ey.
      destruct (Z.min_spec (cv.y acc) (cv.y b)) as [[_ ->] | [_ ->]];
        [exists acc | exists b]; cbn; tauto.
    + destruct Hr as [-> | Hr]; [| exists rr; cbn; tauto].
      rewrite Er, Ew.
      destruct (Z.max_spec (cv.x acc + cv.width acc) (cv.x b + cv.width b))
        as [[_ ->] | [_ ->]]; [exists b | exists acc]; cbn; tauto.
    + destruct Hb as [-> | Hb]; [| exists rb; cbn; tauto].
      rewrite Eb, Eh.
      destruct (Z.max_spec (cv.y acc + cv.height acc) (cv.y b + cv.height b))
        as [[_ ->] | [_ ->]]; [exists b | exists acc]; cbn; tauto.
Qed.

(** C9: on a non-empty sequence [rectBound] returns a rectangle that
    contains every input, whose left, top, right and bottom edges are each
    the edge of some input (so they are the minimum of the lefts and tops
    and the maximum of the rights and bottoms), and which lies within every
    rectangle containing all inputs; the union of (0,0,10,10) and
    (5,5,10,10) is (0,0,15,15). *)
Theorem rectBound_is_bounding_box (rects : list (cv.Rect_ Z)) :
  rects <> [] ->
  (exists rv,
      rectBound rects = Some rv /\
      (forall r, In r rects -> insideZ rv r) /\
      (exists r, In r rects /\ cv.x rv = cv.x r) /\
      (exists r, In r rects /\ cv.y rv = cv.y r) /\
      (exists r, In r rects /\ cv.x rv + cv.width rv = cv.x r + cv.width r) /\
      (exists r, In r rects /\ cv.y rv + cv.height rv = cv.y r + cv.height r) /\
      (forall box, (forall r, In r rects -> insideZ box r) -> insideZ box rv)) /\
  rectBound [cv.mkRect 0 0 10 10; cv.mkRect 5 5 10 10] = Some (cv.mkRect 0 0 15 15).
Proof.
  intros Hne. split; [| reflexivity].
  destruct rects as [| r0 rest]; [contradiction |].
  destruct (fold_rect_or_edges rest r0)
    as [Hin [[rl [Hl El]] [[rt [Ht Et]] [[rr [Hr Er]] [rb [Hb Eb]]]]]].
  assert (Hmem : forall r, r = r0 \/ In r rest -> In r (r0 :: rest))
    by (intros r [-> | H]; [left; reflexivity | right; exact H]).
  assert (Hmem' : forall r, In r (r0 :: rest) -> r = r0 \/ In r rest)
    by (intros r [<- | H]; [left; reflexivity | right; exact H]).
  exists (fold_left rect_or rest r0). cbn [rectBound].
  split; [reflexivity |].
  split; [intros r Hr0; apply Hin, Hmem', Hr0 |].
  split; [exists rl; split; [apply Hmem, Hl | exact El] |].
  split; [exists rt; split; [apply Hmem, Ht | exact Et] |].
  split; [exists rr; split; [apply Hmem, Hr | exact Er] |].
  split; [exists rb; split; [apply Hmem, Hb | exact Eb] |].
  intros box Hbox.
  pose proof (Hbox rl (Hmem rl Hl)) as [Bl _].
  pose proof (Hbox rt (Hmem rt Ht)) as [_ [Bt _]].
  pose proof (Hbox rr (Hmem rr Hr)) as [_ [_ [Br _]]].
  pose proof (Hbox rb (Hmem rb Hb)) as [_ [_ [_ Bb]]].
  unfold insideZ. lia.
Qed.

Lemma rectBound_is_bounding_box_witness :
  (exists rv,
      rectBound [cv.mkRect 3 4 5 6; cv.mkRect 1 7 2 8] = Some rv /\
      (forall r, In r [cv.mkRect 3 4 5 6; cv.mkRect 1 7 2 8] -> insideZ rv r) /\
      (exists r, In r [cv.mkRect 3 4 5 6; cv.mkRect 1 7 2 8] /\ cv.x rv = cv.x r) /\
      (exists r, In r [cv.mkRect 3 4 5 6; cv.mkRect 1 7 2 8] /\ cv.y rv = cv.y r) /\
      (exists r, In r [cv.mkRect 3 4 5 6; cv.mkRect 1 7 2 8] /\
                 cv.x rv + cv.width rv = cv.x r + cv.width r) /\
      (exists r, In r [cv.mkRect 3 4 5 6; cv.mkRect 1 7 2 8] /\
                 cv.y rv + cv.height rv = cv.y r + cv.height r) /\
      (forall box,
          (forall r, In r [cv.mkRect 3 4 5 6; cv.mkRect 1 7 2 8] -> insideZ box r) ->
          insideZ box rv)) /\
  rectBound [cv.mkRect 0 0 10 10; cv.mkRect 5 5 10 10] = Some (cv.mkRect 0 0 15 15).
Proof.
  apply (rectBound_is_bounding_box [cv.mkRect 3 4 5 6; cv.mkRect 1 7 2 8]).
  discriminate.
Defined.

(** ** More on the bounded-acceleration stage *)

Local Open Scope R_scope.

(** One update under the caps: it returns, keeps the velocity within the
    speed cap, and moves [s_] by the new velocity or not at all. *)
Lemma BoundedAccel_step_bounds (k : Knobs) (m : BoundedAccel.t) (target : prec) :
  0 <= kBoundedMaxSlewAccel k ->
  - kBoundedMaxSlew k <= BoundedAccel.ds_ m <= kBoundedMaxSlew k ->
  exists m',
    BoundedAccel.shift k m target = Some m' /\
    - kBoundedMaxSlew k <= BoundedAccel.ds_ m' <= kBoundedMaxSlew k /\
    - kBoundedMaxSlew k <= BoundedAccel.s_ m' - BoundedAccel.s_ m <= kBoundedMaxSlew k.
Proof.
  intros Hacc Hvel. unfold BoundedAccel.shift.
  destruct (Rlt_dec target (BoundedAccel.s_ m)) as [Hlt | Hnlt].
  - cbv zeta. rcases; eexists; (split; [reflexivity |]); cbn; split; lra.
  - destruct (Rgt_dec target (BoundedAccel.s_ m)) as [Hgt | Hngt].
    + cbv zeta. rcases; eexists; (split; [reflexivity |]); cbn; split; lra.
    + exists m. split; [reflexivity |]. split; lra.
Qed.

(** With a zero acceleration cap a mover at rest never starts: whatever
    targets it is fed, it keeps its value and its zero velocity. *)
Theorem BoundedAccel_zero_accel_stuck (k : Knobs) (s : prec) (targets : list prec) :
  kBoundedMaxSlewAccel k = 0 ->
  0 <= kBoundedMaxSlew k ->
  feed_list k (BoundedAccel.mk s 0) targets = Some (BoundedAccel.mk s 0).
Proof.
  intros Ha Hv. induction targets as [| target rest IH]; [reflexivity |].
  assert (Hstep : BoundedAccel.shift k (BoundedAccel.mk s 0) target
                  = Some (BoundedAccel.mk s 0)).
  { unfold BoundedAccel.shift. cbn [BoundedAccel.s_ BoundedAccel.ds_].
    rewrite Ha. rcases; do 2 f_equal; lra. }
  cbn [feed_list]. unfold feed at 1. cbn [BoundedAccel.mover].
  rewrite Hstep. exact IH.
Qed.

(** The witness is the tuning [main] starts with. *)
Lemma BoundedAccel_zero_accel_stuck_witness :
  feed_list (knobs startup_globals) (BoundedAccel.mk 720 0) [650; 100; 900]
  = Some (BoundedAccel.mk 720 0).
Proof.
  apply (BoundedAccel_zero_accel_stuck (knobs startup_globals) 720 [650; 100; 900]).
  - reflexivity.
  - cbn. lra.
Defined.

(** ** The tuning of [main] *)

(** Ten to a non-positive power lies in (0,1]. *)
Lemma exp10_nonpos (x : R) : x <= 0 -> 0 < exp10 x <= 1.
Proof.
  intros Hx. unfold exp10, Rpower. split; [apply exp_pos |].
  assert (Hln : 0 < ln 10) by (rewrite <- ln_1; apply ln_increasing; lra).
  destruct (Rle_lt_or_eq_dec _ _ Hx) as [Hneg | ->].
  - left. rewrite <- exp_0. apply exp_increasing. nra.
  - rewrite Rmult_0_l, exp_0. lra.
Qed.

(** Whatever the other globals hold, a slider position that is not negative
    leaves the written global in the range the smoothers and [scale]
    assume: the low-pass coefficient in (0,1], the two caps not negative,
    the zoom positive, and the vertical positioning in [0,1] up to the
    slider's maximum 120. *)
Theorem trackbars_stay_in_range (g : Globals) (pos : Z) :
  (0 <= pos)%Z ->
  0 < kLPFSlewRate (knobs (onSlewLPF pos g)) <= 1 /\
  0 <= kBoundedMaxSlew (knobs (onSlewVel pos g)) /\
  0 <= kBoundedMaxSlewAccel (knobs (onSlewAccel pos g)) /\
  0 < kZoom (onZoom pos g) /\
  0 <= kEyes (onEyes pos g) /\
  ((pos <= 120)%Z -> kEyes (onEyes pos g) <= 1).
Proof.
  intros Hpos. apply IZR_le in Hpos as Hr.
  unfold onSlewLPF, onSlewVel, onSlewAccel, onZoom, onEyes,
    set_kLPFSlewRate, set_kBoundedMaxSlew, set_kBoundedMaxSlewAccel,
    set_kZoom, set_kEyes.
  cbn [knobs kLPFSlewRate kBoundedMaxSlew kBoundedMaxSlewAccel kZoom kEyes].
  split; [apply exp10_nonpos; lra |].
  split; [lra |]. split; [lra |].
  split; [rewrite plus_IZR; lra |].
  split; [lra |].
  intros Hmax. apply IZR_le in Hmax. lra.
Qed.

Lemma trackbars_stay_in_range_witness :
  0 < kLPFSlewRate (knobs (onSlewLPF 20 startup_globals)) <= 1 /\
  0 <= kBoundedMaxSlew (knobs (onSlewVel 20 startup_globals)) /\
  0 <= kBoundedMaxSlewAccel (knobs (onSlewAccel 20 startup_globals)) /\
  0 < kZoom (onZoom 20 startup_globals) /\
  0 <= kEyes (onEyes 20 startup_globals) /\
  ((20 <= 120)%Z -> kEyes (onEyes 20 startup_globals) <= 1).
Proof.
  apply (trackbars_stay_in_range startup_globals 20). lia.
Defined.

(** The tuning [main] starts with: coefficient 1/100, speed cap 3/40 (the
    second write of line 383), acceleration cap still zero, zoom 6 and
    vertical positioning 1/3. *)
Lemma startup_tuning :
  startup_globals
  = mkGlobals (mkKnobs (1 / 100) (3 / 40) 0) 6 (1 / 3).
Proof.
  unfold startup_globals, set_kLPFSlewRate, set_kBoundedMaxSlew,
    set_kZoom, set_kEyes, zero_globals.
  cbn [knobs kLPFSlewRate kBoundedMaxSlew kBoundedMaxSlewAccel kZoom kEyes].
  assert (Hten : exp10 (20 / - 10) = 1 / 100).
  { unfold exp10. replace (20 / - 10) with (- INR 2) by (cbn; lra).
    rewrite Rpower_Ropp, Rpower_pow by lra. cbn. lra. }
  rewrite Hten. f_equal; [f_equal | |]; lra.
Qed.

(** ** More on the crop solver *)

(** No correction enlarges the rectangle. *)
Lemma clamp_left_shrinks (aspect : prec) (r : cv.Rect_ prec) :
  0 < aspect ->
  cv.width (SmoothMovingRect.clamp_left aspect r) <= cv.width r /\
  cv.height (SmoothMovingRect.clamp_left aspect r) <= cv.height r.
Proof.
  intros Ha. unfold_clamps. destruct (Rlt_dec _ _) as [Hx | Hx]; cbn; [| lra].
  assert (0 < - cv.x r / aspect) by (apply Rdiv_lt_0_compat; lra).
  split; lra.
Qed.

Lemma clamp_top_shrinks (aspect : prec) (r : cv.Rect_ prec) :
  0 < aspect ->
  cv.width (SmoothMovingRect.clamp_top aspect r) <= cv.width r /\
  cv.height (SmoothMovingRect.clamp_top aspect r) <= cv.height r.
Proof.
  intros Ha. unfold_clamps. destruct (Rlt_dec _ _) as [Hy | Hy]; cbn; [| lra].
  assert (0 < - cv.y r * aspect) by (apply Rmult_lt_0_compat; lra).
  split; lra.
Qed.

Lemma clamp_right_shrinks (bounds : cv.Rect_ prec) (aspect : prec) (r : cv.Rect_ prec) :
  0 < aspect ->
  cv.width (SmoothMovingRect.clamp_right bounds aspect r) <= cv.width r /\
  cv.height (SmoothMovingRect.clamp_right bounds aspect r) <= cv.height r.
Proof.
  intros Ha. unfold_clamps. cbv zeta.
  destruct (Rgt_dec _ _) as [Hover | Hfit]; cbn; [| lra].
  assert (0 < (cv.x r + cv.width r - (cv.x bounds + cv.width bounds)) / aspect)
    by (apply Rdiv_lt_0_compat; lra).
  split; lra.
Qed.

Lemma clamp_bottom_shrinks (bounds : cv.Rect_ prec) (aspect : prec) (r : cv.Rect_ prec) :
  0 < aspect ->
  cv.width (SmoothMovingRect.clamp_bottom bounds aspect r) <= cv.width r /\
  cv.height (SmoothMovingRect.clamp_bottom bounds aspect r) <= cv.height r.
Proof.
  intros Ha. unfold_clamps. cbv zeta.
  destruct (Rgt_dec _ _) as [Hover | Hfit]; cbn; [| lra].
  assert (0 < (cv.y r + cv.height r - (cv.y bounds + cv.height bounds)) * aspect)
    by (apply Rmult_lt_0_compat; lra).
  split; lra.
Qed.

(** ** The classifier sizes and the format code *)

Local Open Scope Z_scope.

(** [adjustCascadeSizes] has no result when the divisor slider is at zero,
    a position its range 0..64 allows.  For a positive divisor, a width and
    a prescale count that are not negative, the maximum size is ten times
    the minimum size, the minimum size lies between zero and the camera
    width, and it is zero exactly when the divisor exceeds the prescaled
    width. *)
Theorem adjustCascadeSizes_sizes (camWidth pyrCount divisor : Z) :
  0 <= camWidth -> 0 <= pyrCount ->
  (divisor = 0 -> adjustCascadeSizes camWidth pyrCount divisor = None) /\
  (0 < divisor ->
   exists minSize,
     adjustCascadeSizes camWidth pyrCount divisor = Some (minSize, minSize * 10) /\
     0 <= minSize <= camWidth /\
     (minSize = 0 <-> Z.shiftr camWidth pyrCount < divisor)).
Proof.
  intros Hw Hp. unfold adjustCascadeSizes. split.
  - intros ->. reflexivity.
  - intros Hd.
    destruct (Z.eqb_spec divisor 0) as [-> | _]; [lia |].
    eexists. split; [reflexivity |].
    assert (Hpow : 0 < 2 ^ pyrCount) by (apply Z.pow_pos_nonneg; lia).
    assert (Hs : 0 <= Z.shiftr camWidth pyrCount <= camWidth).
    { rewrite Z.shiftr_div_pow2 by lia. split.
      - apply Z.div_pos; lia.
      - apply Z.div_le_upper_bound; nia. }
    rewrite Z.quot_div_nonneg by lia.
    split; [split |].
    + apply Z.div_pos; lia.
    + apply Z.le_trans with (Z.shiftr camWidth pyrCount); [| lia].
      apply Z.div_le_upper_bound; nia.
    + split.
      * intros H0. apply Z.div_small_iff in H0; lia.
      * intros Hlt. apply Z.div_small. lia.
Qed.

Lemma adjustCascadeSizes_sizes_witness :
  (10 = 0 -> adjustCascadeSizes 1440 0 10 = None) /\
  (0 < 10 ->
   exists minSize,
     adjustCascadeSizes 1440 0 10 = Some (minSize, minSize * 10) /\
     0 <= minSize <= 1440 /\
     (minSize = 0 <-> Z.shiftr 1440 0 < 10)).
Proof.
  apply (adjustCascadeSizes_sizes 1440 0 10); lia.
Defined.

(** The format code is printed faithfully: for a code packed from four
    characters of seven bits, lowest first, the four characters printed are
    those four; and whatever the code, each printed character is a
    seven-bit value. *)
Theorem fourcc_chars_unpack (c0 c1 c2 c3 : Z) :
  0 <= c0 < 128 -> 0 <= c1 < 128 -> 0 <= c2 < 128 -> 0 <= c3 < 128 ->
  fourcc_chars (c0 + c1 * 2 ^ 8 + c2 * 2 ^ 16 + c3 * 2 ^ 24) = [c0; c1; c2; c3] /\
  (forall fourcc, Forall (fun c => 0 <= c < 128) (fourcc_chars fourcc)).
Proof.
  intros H0 H1 H2 H3.
  assert (Hland : forall a, Z.land a 127 = a mod 128)
    by (intros a; change 127 with (Z.ones 7); rewrite Z.land_ones by lia; reflexivity).
  split.
  - unfold fourcc_chars. rewrite !Hland, !Z.shiftr_div_pow2 by lia.
    change (2 ^ 0) with 1. change (2 ^ 8) with 256.
    change (2 ^ 16) with 65536. change (2 ^ 24) with 16777216.
    repeat f_equal.
    all: match goal with
         | |- (?a / ?d) mod 128 = ?c =>
             assert (Hq : a / d mod 128 = c); [| exact Hq];
             pose proof (Z.div_mod a d ltac:(lia));
             pose proof (Z.mod_pos_bound a d ltac:(lia));
             pose proof (Z.div_mod (a / d) 128 ltac:(lia));
             pose proof (Z.mod_pos_bound (a / d) 128 ltac:(lia));
             lia
         end.
  - intros fourcc. unfold fourcc_chars. rewrite !Hland.
    repeat constructor; apply Z.mod_pos_bound; lia.
Qed.

(** The witness is the code of "MJPG", the format [main] requests. *)
Lemma fourcc_chars_unpack_witness :
  fourcc_chars (77 + 74 * 2 ^ 8 + 80 * 2 ^ 16 + 71 * 2 ^ 24) = [77; 74; 80; 71] /\
  (forall fourcc, Forall (fun c => 0 <= c < 128) (fourcc_chars fourcc)).
Proof.
  apply (fourcc_chars_unpack 77 74 80 71); lia.
Defined.

(** ** Order relations that rounding keeps *)

Local Open Scope R_scope.

(** The speed cap is an invariant of the velocity: for an acceleration cap
    that is not negative and a velocity within the speed cap, every
    sequence of updates that passes its assertions leaves the velocity
    within the speed cap. *)
Theorem BoundedAccel_velocity_capped (k : Knobs) (targets : list prec) :
  forall m m' : BoundedAccel.t,
    0 <= kBoundedMaxSlewAccel k ->
    Rabs (BoundedAccel.ds_ m) <= kBoundedMaxSlew k ->
    feed_list k m targets = Some m' ->
    Rabs (BoundedAccel.ds_ m') <= kBoundedMaxSlew k.
Proof.
  induction targets as [| target rest IH]; intros m m' Hacc Hvel Hrun.
  - cbn in Hrun. inversion Hrun; subst. exact Hvel.
  - pose proof (Rabs_le_bounds _ _ Hvel) as Hvel'.
    destruct (BoundedAccel_step_bounds k m target Hacc Hvel') as [m1 [Hstep [Hds _]]].
    cbn [feed_list] in Hrun. unfold feed at 1 in Hrun.
    cbn [BoundedAccel.mover] in Hrun. rewrite Hstep in Hrun. cbn [bind] in Hrun.
    exact (IH m1 m' Hacc (Rabs_le _ _ Hds) Hrun).
Qed.

Lemma BoundedAccel_velocity_capped_witness :
  Rabs (BoundedAccel.ds_ (BoundedAccel.mk (1 / 2) (1 / 2))) <= 1.
Proof.
  apply (BoundedAccel_velocity_capped (mkKnobs (1 / 10) 1 (1 / 2)) [5]
           (BoundedAccel.mk 0 0) (BoundedAccel.mk (1 / 2) (1 / 2))).
  - cbn. lra.
  - cbn. rewrite Rabs_R0. lra.
  - cbn [feed_list]. unfold_movers. rcases. do 2 f_equal; lra.
Defined.

(** For a positive aspect and a [size * factor] that is not negative, the
    rectangle returned by [scale] is never wider or higher than the
    rectangle of area [size * factor] it starts from: the corrections only
    shrink. *)
Theorem scale_never_enlarges (m : SmoothMovingRect.t) (factor verticalPositioning : prec) :
  0 < SmoothMovingRect.aspect_ m ->
  0 <= read (SmoothMovingRect.size_ m) * factor ->
  cv.width (SmoothMovingRect.scale m factor verticalPositioning)
  <= cv.width (SmoothMovingRect.unclamped m factor verticalPositioning) /\
  cv.height (SmoothMovingRect.scale m factor verticalPositioning)
  <= cv.height (SmoothMovingRect.unclamped m factor verticalPositioning).
Proof.
  intros Ha _. unfold SmoothMovingRect.scale. cbv zeta.
  set (r0 := SmoothMovingRect.unclamped m factor verticalPositioning).
  set (r1 := SmoothMovingRect.clamp_left (SmoothMovingRect.aspect_ m) r0).
  set (r2 := SmoothMovingRect.clamp_top (SmoothMovingRect.aspect_ m) r1).
  set (r3 := SmoothMovingRect.clamp_right (SmoothMovingRect.bounds_ m)
               (SmoothMovingRect.aspect_ m) r2).
  destruct (clamp_left_shrinks _ r0 Ha) as [W1 H1].
  destruct (clamp_top_shrinks _ r1 Ha) as [W2 H2].
  destruct (clamp_right_shrinks (SmoothMovingRect.bounds_ m) _ r2 Ha) as [W3 H3].
  destruct (clamp_bottom_shrinks (SmoothMovingRect.bounds_ m) _ r3 Ha) as [W4 H4].
  fold r1 in W1, H1. fold r2 in W2, H2. fold r3 in W3, H3.
  split; lra.
Qed.

Lemma scale_never_enlarges_witness :
  cv.width (SmoothMovingRect.scale
              (SmoothMovingRect.ctor 0 0 (cv.mkRect 0 0 1440 1080)%Z (4 / 3)) 6 (2 / 5))
  <= cv.width (SmoothMovingRect.unclamped
                 (SmoothMovingRect.ctor 0 0 (cv.mkRect 0 0 1440 1080)%Z (4 / 3)) 6 (2 / 5)) /\
  cv.height (SmoothMovingRect.scale
               (SmoothMovingRect.ctor 0 0 (cv.mkRect 0 0 1440 1080)%Z (4 / 3)) 6 (2 / 5))
  <= cv.height (SmoothMovingRect.unclamped
                  (SmoothMovingRect.ctor 0 0 (cv.mkRect 0 0 1440 1080)%Z (4 / 3)) 6 (2 / 5)).
Proof.
  apply (scale_never_enlarges
           (SmoothMovingRect.ctor 0 0 (cv.mkRect 0 0 1440 1080)%Z (4 / 3)) 6 (2 / 5)).
  - cbn. lra.
  - unfold SmoothMovingRect.ctor, LPF.ctor.
    cbn [SmoothMovingRect.size_ cv.width cv.height]. unfold_movers.
    change (int_mul 1440 1080) with 1555200%Z. lra.
Defined.



(** ** Evaluations in binary32 *)

(** C2 (evaluation at the failing input): the controller of line 410 (scene
    1440 x 1080, aspect [kOutWidth / kOutHeight]) in its seed state, zoom
    slider at 83 ([kZoom = 8.4f]) and eyes slider at 0.  [scale] returns
    width 10485760 * 2^-34 (about 0.00061) and height 8388608 * 2^-35 (about
    0.00024): both positive, and their quotient is 5/2 where the aspect is
    4/3. *)
Theorem F32_scale_loses_aspect :
  F32.SmoothMovingRect.scale
    (F32.SmoothMovingRect.ctor (F32.of_int 0) (F32.of_int 0)
       (cv.mkRect 0 0 1440 1080)%Z (F32.ratio kOutWidth kOutHeight))
    (F32.ratio 84 10) (F32.of_int 0)
  = cv.mkRect (S754_finite false 11796475 (-14)) (S754_finite false 8847358 (-13))
              (S754_finite false 10485760 (-34)) (S754_finite false 8388608 (-35)) /\
  F32.ltb (F32.of_int 0) (S754_finite false 10485760 (-34)) = true /\
  F32.ltb (F32.of_int 0) (S754_finite false 8388608 (-35)) = true /\
  F32.div (S754_finite false 10485760 (-34)) (S754_finite false 8388608 (-35))
  = F32.ratio 5 2 /\
  F32.mul (F32.ratio kOutWidth kOutHeight) (S754_finite false 8388608 (-35))
  = S754_finite false 11184811 (-35).
Proof.
  repeat split; vm_compute; reflexivity.
Qed.

(** C4 (evaluation at the failing input): speed and acceleration caps 2,
    state [s_ = 0.5], [ds_ = 0], target [0.1f] = 13421773 * 2^-27.  The
    overshoot clamp sets [ds_] to the rounded [target - s_], the sum
    [s_ + ds_] is 13421772 * 2^-27, one unit in the last place below the
    target, and [assert(s_ >= target)] fails. *)
Theorem F32_BoundedAccel_assert_fails :
  F32.BoundedAccel.shift
    (F32.mkKnobs (F32.ratio 1 100) (F32.of_int 2) (F32.of_int 2))
    (F32.BoundedAccel.mk (F32.ratio 1 2) (F32.of_int 0)) (F32.ratio 1 10)
  = None /\
  F32.ratio 1 10 = S754_finite false 13421773 (-27) /\
  F32.sub (F32.ratio 1 10) (F32.ratio 1 2) = S754_finite true 13421773 (-25) /\
  F32.add (F32.ratio 1 2) (F32.sub (F32.ratio 1 10) (F32.ratio 1 2))
  = S754_finite false 13421772 (-27) /\
  F32.ltb (S754_finite false 13421772 (-27)) (F32.ratio 1 10) = true.
Proof.
  repeat split; vm_compute; reflexivity.
Qed.

(** C8 (counterexample): with [kLPFSlewRate = 0.01f], a low-pass value that
    sits on its target 603 is moved above it, to 9879553 * 2^-14 (about
    603.00006); and the value 10649660 * 2^-14 (about 650.00366), above
    the target 650, is left where it is, so that the distance to the target
    is not multiplied by [1 - kLPFSlewRate] and the target is not
    approached. *)
Lemma F32_LPF_leaves_target :
  F32.LPF.shift (F32.mkKnobs (F32.ratio 1 100) (F32.of_int 1) (F32.of_int 1))
    (F32.LPF.mk (F32.of_int 603)) (F32.of_int 603)
  = F32.LPF.mk (S754_finite false 9879553 (-14)) /\
  F32.ltb (F32.of_int 603) (S754_finite false 9879553 (-14)) = true /\
  F32.LPF.shift (F32.mkKnobs (F32.ratio 1 100) (F32.of_int 1) (F32.of_int 1))
    (F32.LPF.mk (S754_finite false 10649660 (-14))) (F32.of_int 650)
  = F32.LPF.mk (S754_finite false 10649660 (-14)) /\
  F32.ltb (F32.of_int 650) (S754_finite false 10649660 (-14)) = true.
Proof.
  repeat split; vm_compute; reflexivity.
Qed.

(** A pass of the loop in binary32.  Without detections it returns the
    controller untouched, with its crop.  It can fail only inside
    [operator<<]: [rectBound] is called on a non-empty list and returns, and
    the failure is that of the observation of the union it returned. *)
Theorem F32_frame_fails_only_in_observe (roi : F32.SmoothMovingRect.t) (i : F32.FrameInput) :
  (F32.faces_cpu i = [] ->
   F32.frame roi i
   = Some (roi, F32.SmoothMovingRect.scale roi (F32.kZoom i) (F32.kEyes i))) /\
  (F32.frame roi i = None ->
   exists faceBoundsUnscaled,
     rectBound (F32.faces_cpu i) = Some faceBoundsUnscaled /\
     F32.SmoothMovingRect.shift (F32.knobs i) roi
       (F32.Rect_to_float (unscale (F32.classifierPyrCount i) faceBoundsUnscaled))
     = None).
Proof.
  unfold F32.frame. destruct (F32.faces_cpu i) as [| r0 rest].
  - split; [reflexivity | discriminate].
  - split; [discriminate |].
    cbn [length Nat.ltb Nat.leb rectBound bind].
    destruct (F32.SmoothMovingRect.shift _ _ _) eqn:Hobs; [discriminate |].
    intros _. eexists. split; [reflexivity | exact Hobs].
Qed.

(** A NaN in the velocity that the constructor leaves uninitialised makes
    the first update towards a different value fail its assertion, whatever
    the tuning. *)
Theorem F32_nan_velocity_aborts (k : F32.Knobs) (initial target : F32.float) :
  F32.ltb target initial = true \/ F32.ltb initial target = true ->
  F32.BoundedAccel.shift k (F32.BoundedAccel.ctor S754_nan initial) target = None.
Proof.
  intros Hne. unfold F32.BoundedAccel.shift, F32.BoundedAccel.ctor.
  cbn [F32.BoundedAccel.s_ F32.BoundedAccel.ds_].
  assert (Hsub : forall y, F32.sub S754_nan y = S754_nan) by (intros []; reflexivity).
  assert (Hadd : forall y, F32.add S754_nan y = S754_nan) by (intros []; reflexivity).
  assert (Hadd' : forall x, F32.add x S754_nan = S754_nan) by (intros []; reflexivity).
  assert (Hlt : forall y, F32.ltb S754_nan y = false) by (intros []; reflexivity).
  assert (Hlt' : forall x, F32.ltb x S754_nan = false) by (intros []; reflexivity).
  assert (Hle : forall y, F32.leb S754_nan y = false) by (intros []; reflexivity).
  assert (Hle' : forall x, F32.leb x S754_nan = false) by (intros []; reflexivity).
  destruct (F32.ltb target initial) eqn:Hdown.
  - cbv zeta. rewrite Hsub, Hlt. cbv iota. rewrite Hadd', Hlt. cbv iota.
    rewrite Hadd', Hle'. reflexivity.
  - destruct Hne as [Hne | Hne]; [discriminate |]. rewrite Hne.
    cbv zeta. rewrite Hadd, Hlt'. cbv iota. rewrite Hadd', Hlt'. cbv iota.
    rewrite Hadd', Hle. reflexivity.
Qed.

Lemma F32_nan_velocity_aborts_witness :
  F32.BoundedAccel.shift (F32.mkKnobs (F32.ratio 1 100) (F32.of_int 1) (F32.ratio 3 40))
    (F32.BoundedAccel.ctor S754_nan (F32.of_int 720)) (F32.of_int 650)
  = None.
Proof.
  apply (F32_nan_velocity_aborts
           (F32.mkKnobs (F32.ratio 1 100) (F32.of_int 1) (F32.ratio 3 40))
           (F32.of_int 720) (F32.of_int 650)).
  left. vm_compute. reflexivity.
Defined.

(** The two readings agree on the evaluations made in exact arithmetic
    above: every value met there is a binary32 number. *)
Lemma F32_agrees_on_evaluations :
  F32.BoundedAccel.shift
    (F32.mkKnobs (F32.ratio 1 10) (F32.of_int 1) (F32.ratio 1 2))
    (F32.BoundedAccel.mk (F32.of_int 0) (F32.of_int 0)) (F32.ratio 1 4)
  = Some (F32.BoundedAccel.mk (F32.ratio (- 1) 4) (F32.ratio (- 1) 4)) /\
  F32.SmoothMovingRect.scale
    (F32.SmoothMovingRect.ctor (F32.of_int 0) (F32.of_int 0)
       (cv.mkRect 1 0 2 2)%Z (F32.of_int 1))
    (F32.ratio 9 4) (F32.ratio 1 2)
  = cv.mkRect (F32.ratio 1 2) (F32.of_int 0) (F32.of_int 2) (F32.of_int 2) /\
  F32.SmoothMovingRect.clamp_left (F32.of_int 1)
    (F32.SmoothMovingRect.unclamped
       (F32.SmoothMovingRect.ctor (F32.of_int 0) (F32.of_int 0)
          (cv.mkRect 0 0 2 2)%Z (F32.of_int 1))
       (F32.of_int 4) (F32.ratio 1 2))
  = cv.mkRect (F32.of_int 0) (F32.of_int (- 1)) (F32.of_int 2) (F32.of_int 2) /\
  F32.SmoothMovingRect.scale
    (F32.SmoothMovingRect.ctor (F32.of_int 0) (F32.of_int 0)
       (cv.mkRect 0 0 2 2)%Z (F32.of_int 1))
    (F32.of_int 16) (F32.of_int 1)
  = cv.mkRect (F32.of_int 0) (F32.of_int 0) (F32.of_int (- 12)) (F32.of_int (- 12)).
Proof.
  repeat split; vm_compute; reflexivity.
Qed.
